(** * swift-toml: the C++ bridge between toml++ and the flat [Node] value model

    A shallow embedding of [Sources/CTomlPlusPlus/include/CTomlPlusPlus.hpp]
    (the [Node] class, its factories and accessors, [ParseResult]) and of
    [Sources/CTomlPlusPlus/CTomlPlusPlus.cpp] ([convertTable], [convertArray],
    [convertNode], [parse]), followed by the properties of that code.

    Conventions of the embedding:
    - [int32_t], [int64_t] values are integers of [Z]; a [static_cast<int32_t>]
      is the wrap-around [static_cast_int32];
    - [double] is Rocq's binary64 [float];
    - [std::string] is [string], [std::vector<T>] is [list T], [push_back]
      appends at the end, [size_t] indices are [nat];
    - a data member that the constructor does not initialise is a [member]
      that is [indeterminate] until it is assigned;
    - an unchecked [operator[]] on a vector is [vector_at], which reports a
      read past the end instead of returning a value. *)

From Stdlib Require Import ZArith List String Bool Lia PeanoNat.
From Stdlib Require Import Floats.PrimFloat.
Import ListNotations.

Local Open Scope string_scope.
Local Open Scope list_scope.
Local Open Scope Z_scope.

Set Implicit Arguments.

(** ** C++ storage and indexing *)

(** The content of a data member of class type without default member
    initialisers: default-initialisation writes nothing into it. *)
Inductive member (A : Type) : Type :=
| indeterminate : member A
| holds : A -> member A.
Arguments indeterminate {A}.

(** The outcome of an expression that may index a vector without a bounds
    check. *)
Inductive access (A : Type) : Type :=
| done : A -> access A
| past_the_end : access A.
Arguments past_the_end {A}.

(** [v[i]] for a [std::vector]: defined only below [v.size()]. *)
Definition vector_at {A : Type} (v : list A) (i : nat) : access A :=
  match nth_error v i with
  | Some x => done x
  | None => past_the_end
  end.

(** Conversion of an integer value to [int32_t]: reduction modulo 2^32 into
    [-2^31, 2^31). *)
Definition static_cast_int32 (z : Z) : Z :=
  (z + 2147483648) mod 4294967296 - 2147483648.

(** ** The native parse tree of the grammar engine *)

Module toml.

(** Modelled from the spec: [toml.hpp], the grammar engine, is not among the
    sources at hand; the native values are given the fields that
    [convertNode] reads.  This is the engine's calendar date. *)
Record date : Type := mk_date { year : Z; month : Z; day : Z }.

(** Modelled from the spec: the engine's time of day, with nanoseconds. *)
Record time : Type :=
  mk_time { hour : Z; minute : Z; second : Z; nanosecond : Z }.

(** Modelled from the spec: a fixed UTC offset in minutes, negative west of
    Greenwich. *)
Record time_offset : Type := mk_time_offset { minutes : Z }.

(** Modelled from the spec: the engine's date-time; the offset is optional. *)
Record date_time : Type :=
  mk_date_time { dt_date : date; dt_time : time; offset : option time_offset }.

Unset Elimination Schemes.

(** Modelled from the spec: the native node of [toml.hpp], one constructor
    per kind the converter dispatches on.  An array is the sequence of what
    [arr.get(i)] yields for [i = 0 .. arr.size()-1], [None] standing for a
    null pointer; a table is the sequence of key/value pairs in the order
    in which the engine's iterator visits them; [unknown_node] is a node
    for which every [is_*] test answers false. *)
Inductive node : Type :=
| string_node (s : string)
| integer_node (i : Z)
| floating_point_node (f : float)
| boolean_node (b : bool)
| date_node (d : date)
| time_node (t : time)
| date_time_node (dt : date_time)
| array_node (arr : list (option node))
| table_node (tbl : list (string * node))
| unknown_node.

Set Elimination Schemes.

(** Modelled from the spec: the native array and table, as stored in
    [array_node] and [table_node]. *)
Definition array : Type := list (option node).
Definition table : Type := list (string * node).

(** Modelled from the spec: [arr.get(i)], the element at index [i] or a null
    pointer. *)
Definition get (arr : array) (i : nat) : option node :=
  match nth_error arr i with
  | Some (Some elem) => Some elem
  | _ => None
  end.

(** Modelled from the spec: the kind tests of a native node; the kinds are
    mutually exclusive. *)
Definition is_string (n : node) : bool :=
  match n with string_node _ => true | _ => false end.
Definition is_integer (n : node) : bool :=
  match n with integer_node _ => true | _ => false end.
Definition is_floating_point (n : node) : bool :=
  match n with floating_point_node _ => true | _ => false end.
Definition is_boolean (n : node) : bool :=
  match n with boolean_node _ => true | _ => false end.
Definition is_date (n : node) : bool :=
  match n with date_node _ => true | _ => false end.
Definition is_time (n : node) : bool :=
  match n with time_node _ => true | _ => false end.
Definition is_date_time (n : node) : bool :=
  match n with date_time_node _ => true | _ => false end.
Definition is_array (n : node) : bool :=
  match n with array_node _ => true | _ => false end.
Definition is_table (n : node) : bool :=
  match n with table_node _ => true | _ => false end.

(** Modelled from the spec: a position in the input text, as unsigned line
    and column numbers. *)
Record source_position : Type := mk_position { line : N; column : N }.

(** Modelled from the spec: the error that the engine raises on a grammar
    failure, with its description and the position where it begins. *)
Record parse_error : Type :=
  mk_parse_error { description : string; source_begin : source_position }.

(** Modelled from the spec: a call of [toml::parse] either returns the
    document's root table or throws a [parse_error]. *)
Inductive parse_result : Type :=
| returns (tbl : table)
| throws (err : parse_error).

(** Induction on native nodes, with the hypothesis available for every
    element of an array and every value of a table. *)
Section node_ind.
Variable P : node -> Prop.
Hypothesis P_string : forall s, P (string_node s).
Hypothesis P_integer : forall i, P (integer_node i).
Hypothesis P_float : forall f, P (floating_point_node f).
Hypothesis P_boolean : forall b, P (boolean_node b).
Hypothesis P_date : forall d, P (date_node d).
Hypothesis P_time : forall t, P (time_node t).
Hypothesis P_date_time : forall dt, P (date_time_node dt).
Hypothesis P_array :
  forall arr, (forall elem, In (Some elem) arr -> P elem) ->
              P (array_node arr).
Hypothesis P_table :
  forall tbl, (forall k v, In (k, v) tbl -> P v) -> P (table_node tbl).
Hypothesis P_unknown : P unknown_node.

Fixpoint node_ind (n : node) : P n :=
  match n with
  | string_node s => P_string s
  | integer_node i => P_integer i
  | floating_point_node f => P_float f
  | boolean_node b => P_boolean b
  | date_node d => P_date d
  | time_node t => P_time t
  | date_time_node dt => P_date_time dt
  | array_node arr =>
      P_array arr
        ((fix elems (l : list (option node)) :
            forall elem, In (Some elem) l -> P elem :=
            match l with
            | [] => fun _ H => False_ind _ H
            | slot :: rest =>
                fun elem H =>
                  match H with
                  | or_introl E =>
                      match slot as s return s = Some elem -> P elem with
                      | Some e =>
                          fun Ee => eq_ind e P (node_ind e) elem
                                      (f_equal (fun o => match o with
                                                         | Some x => x
                                                         | None => e
                                                         end) Ee)
                      | None => fun Ee => False_ind _ (eq_ind None
                                    (fun o => match o with
                                              | None => True
                                              | Some _ => False
                                              end) I (Some elem) Ee)
                      end E
                  | or_intror H' => elems rest elem H'
                  end
            end) arr)
  | table_node tbl =>
      P_table tbl
        ((fix entries (l : list (string * node)) :
            forall k v, In (k, v) l -> P v :=
            match l with
            | [] => fun _ _ H => False_ind _ H
            | (k0, v0) :: rest =>
                fun k v H =>
                  match H with
                  | or_introl E =>
                      eq_ind v0 P (node_ind v0) v (f_equal snd E)
                  | or_intror H' => entries rest k v H'
                  end
            end) tbl)
  | unknown_node => P_unknown
  end.
End node_ind.

End toml.

(** ** The value model and the converter ([namespace tomlpp]) *)

Module tomlpp.

Record DateValue : Type :=
  mk_DateValue { year : Z; month : Z; day : Z }.

Record TimeValue : Type :=
  mk_TimeValue { hour : Z; minute : Z; second : Z; nanosecond : Z }.

Record DateTimeValue : Type :=
  mk_DateTimeValue {
    date : DateValue;
    time : TimeValue;
    hasOffset : bool;
    offsetMinutes : Z }.

Record ParseError : Type :=
  mk_ParseError { description : string; line : Z; column : Z }.

(** [enum class NodeType : int32_t], enumerators scoped as in the source. *)
Module NodeType.
Inductive t : Type :=
| None | String | Integer | Float | Boolean
| Date | Time | DateTime | Array | Table.

Definition underlying (ty : t) : Z :=
  match ty with
  | None => 0 | String => 1 | Integer => 2 | Float => 3 | Boolean => 4
  | Date => 5 | Time => 6 | DateTime => 7 | Array => 8 | Table => 9
  end.
End NodeType.

Unset Elimination Schemes.

(** [class Node]: the private data members, in declaration order. *)
Inductive Node : Type :=
  mk_Node {
    _type : NodeType.t;
    _stringValue : string;
    _intValue : Z;
    _floatValue : float;
    _boolValue : bool;
    _dateValue : member DateValue;
    _timeValue : member TimeValue;
    _dateTimeValue : member DateTimeValue;
    _arrayValue : list Node;
    _tableKeys : list string;
    _tableValues : list Node }.

Set Elimination Schemes.

(** Assignments to single data members. *)
Definition set_type (n : Node) (v : NodeType.t) : Node :=
  mk_Node v (_stringValue n) (_intValue n) (_floatValue n) (_boolValue n)
    (_dateValue n) (_timeValue n) (_dateTimeValue n)
    (_arrayValue n) (_tableKeys n) (_tableValues n).
Definition set_stringValue (n : Node) (v : string) : Node :=
  mk_Node (_type n) v (_intValue n) (_floatValue n) (_boolValue n)
    (_dateValue n) (_timeValue n) (_dateTimeValue n)
    (_arrayValue n) (_tableKeys n) (_tableValues n).
Definition set_intValue (n : Node) (v : Z) : Node :=
  mk_Node (_type n) (_stringValue n) v (_floatValue n) (_boolValue n)
    (_dateValue n) (_timeValue n) (_dateTimeValue n)
    (_arrayValue n) (_tableKeys n) (_tableValues n).
Definition set_floatValue (n : Node) (v : float) : Node :=
  mk_Node (_type n) (_stringValue n) (_intValue n) v (_boolValue n)
    (_dateValue n) (_timeValue n) (_dateTimeValue n)
    (_arrayValue n) (_tableKeys n) (_tableValues n).
Definition set_boolValue (n : Node) (v : bool) : Node :=
  mk_Node (_type n) (_stringValue n) (_intValue n) (_floatValue n) v
    (_dateValue n) (_timeValue n) (_dateTimeValue n)
    (_arrayValue n) (_tableKeys n) (_tableValues n).
Definition set_dateValue (n : Node) (v : DateValue) : Node :=
  mk_Node (_type n) (_stringValue n) (_intValue n) (_floatValue n)
    (_boolValue n) (holds v) (_timeValue n) (_dateTimeValue n)
    (_arrayValue n) (_tableKeys n) (_tableValues n).
Definition set_timeValue (n : Node) (v : TimeValue) : Node :=
  mk_Node (_type n) (_stringValue n) (_intValue n) (_floatValue n)
    (_boolValue n) (_dateValue n) (holds v) (_dateTimeValue n)
    (_arrayValue n) (_tableKeys n) (_tableValues n).
Definition set_dateTimeValue (n : Node) (v : DateTimeValue) : Node :=
  mk_Node (_type n) (_stringValue n) (_intValue n) (_floatValue n)
    (_boolValue n) (_dateValue n) (_timeValue n) (holds v)
    (_arrayValue n) (_tableKeys n) (_tableValues n).
Definition set_arrayValue (n : Node) (v : list Node) : Node :=
  mk_Node (_type n) (_stringValue n) (_intValue n) (_floatValue n)
    (_boolValue n) (_dateValue n) (_timeValue n) (_dateTimeValue n)
    v (_tableKeys n) (_tableValues n).
Definition set_tableKeys (n : Node) (v : list string) : Node :=
  mk_Node (_type n) (_stringValue n) (_intValue n) (_floatValue n)
    (_boolValue n) (_dateValue n) (_timeValue n) (_dateTimeValue n)
    (_arrayValue n) v (_tableValues n).
Definition set_tableValues (n : Node) (v : list Node) : Node :=
  mk_Node (_type n) (_stringValue n) (_intValue n) (_floatValue n)
    (_boolValue n) (_dateValue n) (_timeValue n) (_dateTimeValue n)
    (_arrayValue n) (_tableKeys n) v.

(** [Node()]: the initialiser list names [_type], [_stringValue],
    [_intValue], [_floatValue] and [_boolValue]; the three vectors are
    default-constructed empty; [_dateValue], [_timeValue] and
    [_dateTimeValue] are plain structs that receive no initialiser. *)
Definition Node_ctor : Node :=
  mk_Node NodeType.None "" 0 0%float false
    indeterminate indeterminate indeterminate
    [] [] [].

Definition getType (n : Node) : NodeType.t := _type n.

Definition getString (n : Node) : string := _stringValue n.
Definition getInteger (n : Node) : Z := _intValue n.
Definition getFloat (n : Node) : float := _floatValue n.
Definition getBoolean (n : Node) : bool := _boolValue n.
Definition getDate (n : Node) : member DateValue := _dateValue n.
Definition getTime (n : Node) : member TimeValue := _timeValue n.
Definition getDateTime (n : Node) : member DateTimeValue := _dateTimeValue n.

Definition getArraySize (n : Node) : nat := List.length (_arrayValue n).

Definition getArrayElement (n : Node) (index : nat) : Node :=
  if (index <? List.length (_arrayValue n))%nat
  then nth index (_arrayValue n) Node_ctor
  else Node_ctor.

Definition getTableSize (n : Node) : nat := List.length (_tableKeys n).

Definition getTableKey (n : Node) (index : nat) : string :=
  if (index <? List.length (_tableKeys n))%nat
  then nth index (_tableKeys n) ""
  else "".

(** The loop of [getTableValue], entered at index [i] with [keys] the keys
    from index [i] on: the key at [i] is compared with [key]; on a match
    [_tableValues[i]] is returned, read without a bounds check. *)
Fixpoint getTableValue_loop (keys : list string) (values : list Node)
         (key : string) (i : nat) : access (option Node) :=
  match keys with
  | [] => done None
  | k :: rest =>
      if String.eqb k key
      then match vector_at values i with
           | done v => done (Some v)
           | past_the_end => past_the_end
           end
      else getTableValue_loop rest values key (S i)
  end.

Definition getTableValue (n : Node) (key : string) : access (option Node) :=
  getTableValue_loop (_tableKeys n) (_tableValues n) key 0.

Definition makeString (value : string) : Node :=
  let n := Node_ctor in
  let n := set_type n NodeType.String in
  let n := set_stringValue n value in
  n.

Definition makeInteger (value : Z) : Node :=
  let n := Node_ctor in
  let n := set_type n NodeType.Integer in
  let n := set_intValue n value in
  n.

Definition makeFloat (value : float) : Node :=
  let n := Node_ctor in
  let n := set_type n NodeType.Float in
  let n := set_floatValue n value in
  n.

Definition makeBoolean (value : bool) : Node :=
  let n := Node_ctor in
  let n := set_type n NodeType.Boolean in
  let n := set_boolValue n value in
  n.

Definition makeDate (value : DateValue) : Node :=
  let n := Node_ctor in
  let n := set_type n NodeType.Date in
  let n := set_dateValue n value in
  n.

Definition makeTime (value : TimeValue) : Node :=
  let n := Node_ctor in
  let n := set_type n NodeType.Time in
  let n := set_timeValue n value in
  n.

Definition makeDateTime (value : DateTimeValue) : Node :=
  let n := Node_ctor in
  let n := set_type n NodeType.DateTime in
  let n := set_dateTimeValue n value in
  n.

Definition makeArray (elements : list Node) : Node :=
  let n := Node_ctor in
  let n := set_type n NodeType.Array in
  let n := set_arrayValue n elements in
  n.

Definition makeTable (keys : list string) (values : list Node) : Node :=
  let n := Node_ctor in
  let n := set_type n NodeType.Table in
  let n := set_tableKeys n keys in
  let n := set_tableValues n values in
  n.

Record ParseResult : Type :=
  mk_ParseResult {
    success : bool;
    error : option ParseError;
    root : Node }.

Definition set_success (r : ParseResult) (v : bool) : ParseResult :=
  mk_ParseResult v (error r) (root r).
Definition set_error (r : ParseResult) (v : option ParseError) : ParseResult :=
  mk_ParseResult (success r) v (root r).
Definition set_root (r : ParseResult) (v : Node) : ParseResult :=
  mk_ParseResult (success r) (error r) v.

(** *** CTomlPlusPlus.cpp *)

(** One iteration of the loop of [convertTable]: both vectors grow by one
    entry. *)
Definition table_step (convert : toml.node -> Node)
           (acc : list string * list Node) (entry : string * toml.node)
  : list string * list Node :=
  let '(keys, values) := acc in
  let '(k, v) := entry in
  (keys ++ [k], values ++ [convert v]).

(** One iteration of the loop of [convertArray]: [slot] is what
    [arr.get(i)] yields; a null pointer leaves [elements] as it is. *)
Definition array_step (convert : toml.node -> Node)
           (elements : list Node) (slot : option toml.node) : list Node :=
  match slot with
  | Some elem => elements ++ [convert elem]
  | None => elements
  end.

(** [convertNode]: the chain of [is_*] tests, one arm per test in the order
    of the source; the final arm is the [return Node()] below the chain.
    [year] is copied as it is, every other date and time field goes through
    [static_cast<int32_t>], the offset minutes are converted to [int32_t] by
    the assignment.  The calls of [convertArray] and [convertTable] are
    written out in place, which makes the recursion structural. *)
Fixpoint convertNode (node : toml.node) : Node :=
  match node with
  | toml.string_node s => makeString s
  | toml.integer_node i => makeInteger i
  | toml.floating_point_node f => makeFloat f
  | toml.boolean_node b => makeBoolean b
  | toml.date_node d =>
      let dv := mk_DateValue (toml.year d)
                  (static_cast_int32 (toml.month d))
                  (static_cast_int32 (toml.day d)) in
      makeDate dv
  | toml.time_node t =>
      let tv := mk_TimeValue (static_cast_int32 (toml.hour t))
                  (static_cast_int32 (toml.minute t))
                  (static_cast_int32 (toml.second t))
                  (static_cast_int32 (toml.nanosecond t)) in
      makeTime tv
  | toml.date_time_node dt =>
      let dtv_date :=
        mk_DateValue (toml.year (toml.dt_date dt))
          (static_cast_int32 (toml.month (toml.dt_date dt)))
          (static_cast_int32 (toml.day (toml.dt_date dt))) in
      let dtv_time :=
        mk_TimeValue (static_cast_int32 (toml.hour (toml.dt_time dt)))
          (static_cast_int32 (toml.minute (toml.dt_time dt)))
          (static_cast_int32 (toml.second (toml.dt_time dt)))
          (static_cast_int32 (toml.nanosecond (toml.dt_time dt))) in
      let dtv_hasOffset :=
        match toml.offset dt with Some _ => true | None => false end in
      let dtv_offsetMinutes :=
        match toml.offset dt with
        | Some off => static_cast_int32 (toml.minutes off)
        | None => 0
        end in
      makeDateTime
        (mk_DateTimeValue dtv_date dtv_time dtv_hasOffset dtv_offsetMinutes)
  | toml.array_node arr =>
      makeArray (fold_left (array_step convertNode) arr [])
  | toml.table_node tbl =>
      let '(keys, values) := fold_left (table_step convertNode) tbl ([], []) in
      makeTable keys values
  | toml.unknown_node => Node_ctor
  end.

(** [convertTable]: the range-for loop over the native pairs, then
    [makeTable]. *)
Definition convertTable (table : toml.table) : Node :=
  let '(keys, values) := fold_left (table_step convertNode) table ([], []) in
  makeTable keys values.

(** [convertArray]: the loop over the slots of the native array, then
    [makeArray]. *)
Definition convertArray (arr : toml.array) : Node :=
  makeArray (fold_left (array_step convertNode) arr []).

(** The loop of [convertArray] as the source writes it, by index:
    [steps] iterations remain and the next index is [i]. *)
Fixpoint convertArray_loop (arr : toml.array) (steps i : nat)
         (elements : list Node) : list Node :=
  match steps with
  | O => elements
  | S steps' =>
      convertArray_loop arr steps' (S i)
        (match toml.get arr i with
         | Some elem => elements ++ [convertNode elem]
         | None => elements
         end)
  end.

Section parse.
(** The grammar engine, [toml::parse] of [toml.hpp]. *)
Variable toml_parse : string -> toml.parse_result.

(** [parse]: [result] starts with [success = false], no error and the
    default root; the [try] block assigns [root], then [success]; the
    handler assigns [error] only. *)
Definition parse (input : string) : ParseResult :=
  let result := mk_ParseResult false None Node_ctor in
  match toml_parse input with
  | toml.returns table =>
      let result := set_root result (convertTable table) in
      let result := set_success result true in
      result
  | toml.throws err =>
      let parseError :=
        mk_ParseError (toml.description err)
          (Z.of_N (toml.line (toml.source_begin err)))
          (Z.of_N (toml.column (toml.source_begin err))) in
      let result := set_error result (Some parseError) in
      result
  end.
End parse.

End tomlpp.

Import tomlpp.

(** ** Vocabulary of the properties *)

(** A call of one of the nine factory operations, with its arguments. *)
Inductive factory_call : Type :=
| call_makeString (value : string)
| call_makeInteger (value : Z)
| call_makeFloat (value : float)
| call_makeBoolean (value : bool)
| call_makeDate (value : DateValue)
| call_makeTime (value : TimeValue)
| call_makeDateTime (value : DateTimeValue)
| call_makeArray (elements : list Node)
| call_makeTable (keys : list string) (values : list Node).

Definition run_factory (c : factory_call) : Node :=
  match c with
  | call_makeString value => makeString value
  | call_makeInteger value => makeInteger value
  | call_makeFloat value => makeFloat value
  | call_makeBoolean value => makeBoolean value
  | call_makeDate value => makeDate value
  | call_makeTime value => makeTime value
  | call_makeDateTime value => makeDateTime value
  | call_makeArray elements => makeArray elements
  | call_makeTable keys values => makeTable keys values
  end.

(** The tag that the factory of a call sets. *)
Definition factory_tag (c : factory_call) : NodeType.t :=
  match c with
  | call_makeString _ => NodeType.String
  | call_makeInteger _ => NodeType.Integer
  | call_makeFloat _ => NodeType.Float
  | call_makeBoolean _ => NodeType.Boolean
  | call_makeDate _ => NodeType.Date
  | call_makeTime _ => NodeType.Time
  | call_makeDateTime _ => NodeType.DateTime
  | call_makeArray _ => NodeType.Array
  | call_makeTable _ _ => NodeType.Table
  end.

(** The all-zero records. *)
Definition zero_DateValue : DateValue := mk_DateValue 0 0 0.
Definition zero_TimeValue : TimeValue := mk_TimeValue 0 0 0 0.
Definition zero_DateTimeValue : DateTimeValue :=
  mk_DateTimeValue zero_DateValue zero_TimeValue false 0.

(** The elements that [arr.get(i)] yields, in index order. *)
Fixpoint present (arr : toml.array) : list toml.node :=
  match arr with
  | [] => []
  | Some elem :: rest => elem :: present rest
  | None :: rest => present rest
  end.

(** The index of the first occurrence of [key] in [keys]. *)
Fixpoint first_index (keys : list string) (key : string) : option nat :=
  match keys with
  | [] => None
  | k :: rest =>
      if String.eqb k key then Some O
      else option_map S (first_index rest key)
  end.

(** The native offset, when there is one, is a value of [int32_t] (the
    engine stores it in a narrower signed field). *)
Definition offset_representable (dt : toml.date_time) : Prop :=
  match toml.offset dt with
  | Some off => -2147483648 <= toml.minutes off <= 2147483647
  | None => True
  end.

(** The tag that the test chain of [convertNode] selects for a native node. *)
Definition converted_tag (node : toml.node) : NodeType.t :=
  if toml.is_string node then NodeType.String
  else if toml.is_integer node then NodeType.Integer
  else if toml.is_floating_point node then NodeType.Float
  else if toml.is_boolean node then NodeType.Boolean
  else if toml.is_date node then NodeType.Date
  else if toml.is_time node then NodeType.Time
  else if toml.is_date_time node then NodeType.DateTime
  else if toml.is_array node then NodeType.Array
  else if toml.is_table node then NodeType.Table
  else NodeType.None.

(** [c] is stored directly inside [n], as an array element or a table
    value. *)
Inductive child (n : Node) (c : Node) : Prop :=
| child_of_array : In c (_arrayValue n) -> child n c
| child_of_table : In c (_tableValues n) -> child n c.

(** [m] is [n] or lies somewhere below it. *)
Inductive reachable (n : Node) : Node -> Prop :=
| reachable_here : reachable n n
| reachable_below : forall c m, child n c -> reachable c m -> reachable n m.

Unset Elimination Schemes.

(** Every table key has its value: the two parallel vectors of a node and of
    all nodes below it have the same length. *)
Inductive paired : Node -> Prop :=
| paired_node :
    forall n,
      List.length (_tableKeys n) = List.length (_tableValues n) ->
      Forall paired (_arrayValue n) ->
      Forall paired (_tableValues n) ->
      paired n.

Set Elimination Schemes.

(** *** Native trees that convert without loss *)

(** A value that a conversion to [int32_t] leaves as it is. *)
Definition fits_int32 (z : Z) : bool :=
  (-2147483648 <=? z) && (z <=? 2147483647).

Definition date_fits (d : toml.date) : bool :=
  fits_int32 (toml.month d) && fits_int32 (toml.day d).

Definition time_fits (t : toml.time) : bool :=
  fits_int32 (toml.hour t) && fits_int32 (toml.minute t) &&
  fits_int32 (toml.second t) && fits_int32 (toml.nanosecond t).

Definition date_time_fits (dt : toml.date_time) : bool :=
  date_fits (toml.dt_date dt) && time_fits (toml.dt_time dt) &&
  match toml.offset dt with
  | Some off => fits_int32 (toml.minutes off)
  | None => true
  end.

(** The native trees in which, at every depth, every cast field fits
    [int32_t] and every array index yields an element. *)
Fixpoint lossless (node : toml.node) : bool :=
  match node with
  | toml.date_node d => date_fits d
  | toml.time_node t => time_fits t
  | toml.date_time_node dt => date_time_fits dt
  | toml.array_node arr =>
      forallb (fun slot => match slot with
                           | Some elem => lossless elem
                           | None => false
                           end) arr
  | toml.table_node tbl => forallb (fun entry => lossless (snd entry)) tbl
  | _ => true
  end.

(** The first pair of a native table whose key is [key]. *)
Definition native_lookup (tbl : toml.table) (key : string)
  : option (string * toml.node) :=
  find (fun entry => String.eqb (fst entry) key) tbl.

Unset Elimination Schemes.

(** A node that is the default node or the result of one factory call, with
    the same true of everything stored below it. *)
Inductive factory_built : Node -> Prop :=
| factory_built_node :
    forall n,
      (n = Node_ctor \/ exists c, n = run_factory c) ->
      Forall factory_built (_arrayValue n) ->
      Forall factory_built (_tableValues n) ->
      factory_built n.

Set Elimination Schemes.

(** *** The contract of the grammar engine *)

(** Modelled from the spec: [toml::parse] is not among the sources at hand.
    The engine returns a parse tree for a well-formed text and raises a
    grammar failure for a malformed one; [well_formed] is the TOML
    grammar. *)
Definition engine_decides (well_formed : string -> Prop)
           (toml_parse : string -> toml.parse_result) : Prop :=
  forall text,
    (well_formed text -> exists tbl, toml_parse text = toml.returns tbl) /\
    (~ well_formed text -> exists err, toml_parse text = toml.throws err).

(** Modelled from the spec: the position that comes with a grammar failure
    has a 1-based line and a 1-based column. *)
Definition engine_positions_one_based
           (toml_parse : string -> toml.parse_result) : Prop :=
  forall text err,
    toml_parse text = toml.throws err ->
    (1 <= toml.line (toml.source_begin err))%N /\
    (1 <= toml.column (toml.source_begin err))%N.

(** Modelled from the spec: for the empty text the engine returns a root
    table without entries. *)
Definition engine_empty_document
           (toml_parse : string -> toml.parse_result) : Prop :=
  toml_parse "" = toml.returns [].

(** *** A table-driven engine for concrete instances

    The documents are examples of the specification; every other text is
    rejected at line 1, column 1. *)

Definition nested_document : string := "[a]
b = [1,2,3]".

Definition offset_document : string := "d = 1979-05-27T07:32:00-07:00".

Definition nested_tree : toml.table :=
  [("a", toml.table_node
           [("b", toml.array_node
                    [Some (toml.integer_node 1);
                     Some (toml.integer_node 2);
                     Some (toml.integer_node 3)])])].

Definition offset_date_time : toml.date_time :=
  toml.mk_date_time (toml.mk_date 1979 5 27) (toml.mk_time 7 32 0 0)
    (Some (toml.mk_time_offset (-420))).

Definition offset_tree : toml.table :=
  [("d", toml.date_time_node offset_date_time)].

Definition sample_engine (text : string) : toml.parse_result :=
  if String.eqb text "" then toml.returns []
  else if String.eqb text nested_document then toml.returns nested_tree
  else if String.eqb text offset_document then toml.returns offset_tree
  else toml.throws
         (toml.mk_parse_error "syntax error" (toml.mk_position 1 1)).

Definition sample_well_formed (text : string) : Prop :=
  text = "" \/ text = nested_document \/ text = offset_document.

(** ** The loops of the converter in closed form *)

Lemma table_fold :
  forall (convert : toml.node -> Node) (tbl : toml.table) keys values,
    fold_left (table_step convert) tbl (keys, values) =
    (keys ++ map fst tbl, values ++ map (fun e => convert (snd e)) tbl).
Proof.
  intros convert tbl.
  induction tbl as [| [k v] rest IH]; intros keys values; simpl.
  - now rewrite !app_nil_r.
  - rewrite IH, <- !app_assoc. reflexivity.
Qed.

Lemma array_fold :
  forall (convert : toml.node -> Node) (arr : toml.array) elements,
    fold_left (array_step convert) arr elements =
    elements ++ map convert (present arr).
Proof.
  intros convert arr.
  induction arr as [| [elem |] rest IH]; intros elements; simpl.
  - now rewrite app_nil_r.
  - rewrite IH, <- app_assoc. reflexivity.
  - apply IH.
Qed.

Lemma convertTable_closed :
  forall tbl : toml.table,
    convertTable tbl =
    makeTable (map fst tbl) (map (fun e => convertNode (snd e)) tbl).
Proof.
  intros tbl. unfold convertTable. rewrite table_fold. reflexivity.
Qed.

Lemma convertArray_closed :
  forall arr : toml.array,
    convertArray arr = makeArray (map convertNode (present arr)).
Proof.
  intros arr. unfold convertArray. rewrite array_fold. reflexivity.
Qed.

Lemma convertNode_array :
  forall arr, convertNode (toml.array_node arr) = convertArray arr.
Proof. reflexivity. Qed.

Lemma convertNode_table :
  forall tbl, convertNode (toml.table_node tbl) = convertTable tbl.
Proof. reflexivity. Qed.

(** The loop over indices visits the slots of the array from left to right:
    started at index [length seen] with as many steps as slots remain, it is
    the fold over the remaining slots. *)
Lemma convertArray_loop_fold :
  forall (rest seen : toml.array) elements,
    convertArray_loop (seen ++ rest) (List.length rest) (List.length seen)
      elements =
    fold_left (array_step convertNode) rest elements.
Proof.
  induction rest as [| slot rest IH]; intros seen elements; simpl.
  - reflexivity.
  - replace (seen ++ slot :: rest) with ((seen ++ [slot]) ++ rest)
      by (rewrite <- app_assoc; reflexivity).
    replace (S (List.length seen)) with (List.length (seen ++ [slot]))
      by (rewrite length_app; simpl; lia).
    rewrite IH. f_equal.
    unfold toml.get.
    rewrite <- app_assoc. simpl.
    rewrite nth_error_app2 by lia.
    rewrite Nat.sub_diag. simpl.
    destruct slot; reflexivity.
Qed.

Lemma convertArray_by_index :
  forall arr : toml.array,
    convertArray arr =
    makeArray (convertArray_loop arr (List.length arr) 0 []).
Proof.
  intros arr. unfold convertArray.
  now rewrite <- (convertArray_loop_fold arr [] []).
Qed.

(** The test chain of [convertNode] falls through to [Node()] exactly on
    nodes that answer no [is_*] test. *)
Lemma unmatched_kind :
  forall node : toml.node,
    toml.is_string node = false -> toml.is_integer node = false ->
    toml.is_floating_point node = false -> toml.is_boolean node = false ->
    toml.is_date node = false -> toml.is_time node = false ->
    toml.is_date_time node = false -> toml.is_array node = false ->
    toml.is_table node = false ->
    node = toml.unknown_node.
Proof.
  intros node; destruct node; simpl; intros; try discriminate; reflexivity.
Qed.

(** ** The accessors on freshly built nodes *)

Lemma getType_run_factory :
  forall c, getType (run_factory c) = factory_tag c.
Proof. destruct c; reflexivity. Qed.

Lemma getString_run_factory :
  forall c,
    getString (run_factory c) =
    match c with call_makeString value => value | _ => "" end.
Proof. destruct c; reflexivity. Qed.

Lemma getInteger_run_factory :
  forall c,
    getInteger (run_factory c) =
    match c with call_makeInteger value => value | _ => 0 end.
Proof. destruct c; reflexivity. Qed.

Lemma getFloat_run_factory :
  forall c,
    getFloat (run_factory c) =
    match c with call_makeFloat value => value | _ => 0%float end.
Proof. destruct c; reflexivity. Qed.

Lemma getBoolean_run_factory :
  forall c,
    getBoolean (run_factory c) =
    match c with call_makeBoolean value => value | _ => false end.
Proof. destruct c; reflexivity. Qed.

Lemma getArrayElement_nth :
  forall n index,
    getArrayElement n index = nth index (_arrayValue n) Node_ctor.
Proof.
  intros n index. unfold getArrayElement.
  destruct (Nat.ltb_spec index (List.length (_arrayValue n))) as [Hlt | Hge].
  - reflexivity.
  - now rewrite nth_overflow.
Qed.

Lemma getTableKey_nth :
  forall n index, getTableKey n index = nth index (_tableKeys n) "".
Proof.
  intros n index. unfold getTableKey.
  destruct (Nat.ltb_spec index (List.length (_tableKeys n))) as [Hlt | Hge].
  - reflexivity.
  - now rewrite nth_overflow.
Qed.

Lemma array_run_factory :
  forall c,
    _arrayValue (run_factory c) =
    match c with call_makeArray elements => elements | _ => [] end.
Proof. destruct c; reflexivity. Qed.

Lemma table_run_factory :
  forall c,
    (_tableKeys (run_factory c), _tableValues (run_factory c)) =
    match c with
    | call_makeTable keys values => (keys, values)
    | _ => ([], [])
    end.
Proof. destruct c; reflexivity. Qed.

(** ** The linear scan of [getTableValue] *)

Lemma first_index_none :
  forall keys key, first_index keys key = None <-> ~ In key keys.
Proof.
  induction keys as [| k rest IH]; intros key; simpl.
  - split; [intros _ H; exact H | reflexivity].
  - destruct (String.eqb_spec k key) as [E | NE].
    + split; [discriminate | intros H; exfalso; apply H; now left].
    + destruct (first_index rest key) as [j |] eqn:Ej; simpl.
      * split; [discriminate |].
        intros H. exfalso.
        assert (Hin : In key rest).
        { destruct (in_dec string_dec key rest) as [Hin | Hnin]; [exact Hin |].
          apply IH in Hnin. congruence. }
        apply H. now right.
      * split; [| reflexivity].
        intros _ [E | Hin]; [now apply NE |].
        revert Hin. now apply IH.
Qed.

Lemma first_index_some :
  forall keys key i,
    first_index keys key = Some i ->
    nth_error keys i = Some key /\
    (forall j, (j < i)%nat -> nth_error keys j <> Some key).
Proof.
  induction keys as [| k rest IH]; intros key i; simpl.
  - discriminate.
  - destruct (String.eqb_spec k key) as [E | NE].
    + intros H. injection H as <-. subst k. split; [reflexivity |].
      intros j Hj. lia.
    + destruct (first_index rest key) as [i' |] eqn:Ei; simpl; [| discriminate].
      intros H. injection H as <-.
      destruct (IH key i' Ei) as [Hat Hbefore].
      split; [exact Hat |].
      intros [| j] Hj; simpl.
      * intros H. injection H as H. now apply NE.
      * apply Hbefore. lia.
Qed.

Lemma first_index_in_range :
  forall keys key i,
    first_index keys key = Some i -> (i < List.length keys)%nat.
Proof.
  intros keys key i H.
  apply first_index_some in H. destruct H as [Hat _].
  apply nth_error_Some. congruence.
Qed.

(** The scan started at index [i] on the keys from [i] on reads the value
    vector at [i] plus the offset of the first match, and nowhere else. *)
Lemma getTableValue_loop_first :
  forall keys values key i,
    getTableValue_loop keys values key i =
    match first_index keys key with
    | None => done None
    | Some j =>
        match vector_at values (i + j) with
        | done v => done (Some v)
        | past_the_end => past_the_end
        end
    end.
Proof.
  induction keys as [| k rest IH]; intros values key i; simpl.
  - reflexivity.
  - destruct (String.eqb k key).
    + now rewrite Nat.add_0_r.
    + rewrite IH.
      destruct (first_index rest key) as [j |]; simpl; [| reflexivity].
      now rewrite Nat.add_succ_r.
Qed.

Lemma getTableValue_first :
  forall n key,
    getTableValue n key =
    match first_index (_tableKeys n) key with
    | None => done None
    | Some j =>
        match vector_at (_tableValues n) j with
        | done v => done (Some v)
        | past_the_end => past_the_end
        end
    end.
Proof.
  intros n key. unfold getTableValue. now rewrite getTableValue_loop_first.
Qed.

(** The lookup answers "absent" exactly for the keys that the node does not
    store, whatever the length of the value vector. *)
Lemma getTableValue_absent :
  forall n key,
    getTableValue n key = done None <-> ~ In key (_tableKeys n).
Proof.
  intros n key. rewrite getTableValue_first, <- first_index_none.
  destruct (first_index (_tableKeys n) key) as [j |].
  - split; [| discriminate].
    destruct (vector_at (_tableValues n) j); discriminate.
  - split; reflexivity.
Qed.

(** ** Nodes built by the converter *)

Lemma paired_Node_ctor : paired Node_ctor.
Proof. constructor; simpl; auto. Qed.

Lemma paired_convertNode : forall node : toml.node, paired (convertNode node).
Proof.
  induction node as [s | i | f | b | d | t | dt | arr IH | tbl IH |]
    using toml.node_ind;
    try (constructor; simpl; auto; fail).
  - rewrite convertNode_array, convertArray_closed.
    constructor; simpl; auto.
    apply Forall_forall. intros c Hc.
    apply in_map_iff in Hc. destruct Hc as [elem [<- Helem]].
    apply IH.
    clear IH. induction arr as [| [e |] rest IHarr]; simpl in *.
    + contradiction.
    + destruct Helem as [-> | Helem]; [now left | right; now apply IHarr].
    + right. now apply IHarr.
  - rewrite convertNode_table, convertTable_closed.
    constructor; simpl.
    + now rewrite !length_map.
    + auto.
    + apply Forall_forall. intros c Hc.
      apply in_map_iff in Hc. destruct Hc as [[k v] [<- Hkv]].
      simpl. now apply (IH k v).
Qed.

Lemma paired_convertTable : forall tbl : toml.table, paired (convertTable tbl).
Proof. intros tbl. rewrite <- convertNode_table. apply paired_convertNode. Qed.

Lemma paired_child : forall n c, paired n -> child n c -> paired c.
Proof.
  intros n c Hn Hc. inversion Hn as [n' Hlen Harr Htbl]; subst.
  destruct Hc as [Hin | Hin].
  - now apply (proj1 (Forall_forall _ _) Harr).
  - now apply (proj1 (Forall_forall _ _) Htbl).
Qed.

Lemma paired_reachable : forall n m, reachable n m -> paired n -> paired m.
Proof.
  intros n m Hreach. induction Hreach as [n | n c m Hc _ IH]; intros Hn.
  - exact Hn.
  - apply IH. now apply paired_child with n.
Qed.

(** ** Tag exclusivity *)

(** The struct-valued accessors on a freshly built node: the factory of the
    matching tag is the only one that ever writes the member. *)
Lemma struct_accessors_run_factory :
  forall c,
    getDate (run_factory c) =
      match c with call_makeDate value => holds value | _ => indeterminate end
    /\ getTime (run_factory c) =
      match c with call_makeTime value => holds value | _ => indeterminate end
    /\ getDateTime (run_factory c) =
      match c with
      | call_makeDateTime value => holds value
      | _ => indeterminate
      end.
Proof. destruct c; repeat split; reflexivity. Qed.

(** C1.  Every factory sets its tag and its own payload, and [getString],
    [getInteger], [getFloat], [getBoolean] and the container accessors return
    their zero or empty default on a node of another tag (the lemmas on
    [run_factory] above).  The struct-valued accessors do not: on the node
    built by [makeString "x"] the tag is String, [getString] returns ["x"] and
    [getInteger] returns 0, but [getDate], [getTime] and [getDateTime] return
    members that [Node()] never initialised and that [makeString] never
    wrote, so none of them is the all-zero record. *)
Theorem wrong_tag_struct_accessors_not_zeroed :
  getType (makeString "x") = NodeType.String /\
  getString (makeString "x") = "x" /\
  getInteger (makeString "x") = 0 /\
  getDate (makeString "x") = indeterminate /\
  getTime (makeString "x") = indeterminate /\
  getDateTime (makeString "x") = indeterminate /\
  getDate (makeString "x") <> holds zero_DateValue /\
  getTime (makeString "x") <> holds zero_TimeValue /\
  getDateTime (makeString "x") <> holds zero_DateTimeValue.
Proof.
  repeat split; try reflexivity; simpl; discriminate.
Qed.

(** ** The parse result *)

Section parse_result.
Variable toml_parse : string -> toml.parse_result.

Lemma parse_returns :
  forall input tbl,
    toml_parse input = toml.returns tbl ->
    parse toml_parse input = mk_ParseResult true None (convertTable tbl).
Proof. intros input tbl H. unfold parse. rewrite H. reflexivity. Qed.

Lemma parse_throws :
  forall input err,
    toml_parse input = toml.throws err ->
    parse toml_parse input =
    mk_ParseResult false
      (Some (mk_ParseError (toml.description err)
               (Z.of_N (toml.line (toml.source_begin err)))
               (Z.of_N (toml.column (toml.source_begin err)))))
      Node_ctor.
Proof. intros input err H. unfold parse. rewrite H. reflexivity. Qed.

Lemma getType_convertTable :
  forall tbl, getType (convertTable tbl) = NodeType.Table.
Proof. intros tbl. rewrite convertTable_closed. reflexivity. Qed.

(** C2.  For every engine and every input text the result of [parse] is of
    exactly one of two shapes: an error is present, and then [success] is
    false and [root] is the empty node; or [success] is true, [root] is the
    Table node converted from the tree that the engine returned, and no
    error is present. *)
Theorem parse_result_alternatives :
  forall input : string,
    let r := parse toml_parse input in
    let failed := exists e, error r = Some e in
    let succeeded :=
      success r = true /\ getType (root r) = NodeType.Table /\
      exists tbl, toml_parse input = toml.returns tbl /\
                  root r = convertTable tbl in
    (failed /\ ~ succeeded \/ succeeded /\ ~ failed) /\
    (failed -> success r = false /\ root r = Node_ctor) /\
    (succeeded -> error r = None) /\
    (success r = true -> succeeded).
Proof.
  intros input. cbv zeta.
  destruct (toml_parse input) as [tbl | err] eqn:E.
  - rewrite (parse_returns E). simpl.
    assert (Hs : true = true /\
                 getType (convertTable tbl) = NodeType.Table /\
                 exists tbl0, toml.returns tbl = toml.returns tbl0 /\
                              convertTable tbl = convertTable tbl0).
    { split; [reflexivity |]. split; [apply getType_convertTable |].
      exists tbl. split; reflexivity. }
    split; [| split; [| split]].
    + right. split; [exact Hs |]. intros [e He]. discriminate.
    + intros [e He]. discriminate.
    + reflexivity.
    + intros _. exact Hs.
  - rewrite (parse_throws E). simpl.
    split; [| split; [| split]].
    + left. split; [eexists; reflexivity |]. intros [H _]. discriminate.
    + intros _. split; reflexivity.
    + intros [H _]. discriminate.
    + discriminate.
Qed.
End parse_result.

(** ** Positional access *)

(** C3.  On every node, whatever its tag, an index at or beyond the array
    size makes [getArrayElement] return the empty node, whose tag is None,
    and an index at or beyond the table size makes [getTableKey] return the
    empty string; both accessors are total functions. *)
Theorem out_of_range_access_default :
  forall (n : Node) (index : nat),
    ((getArraySize n <= index)%nat ->
     getArrayElement n index = Node_ctor /\
     getType (getArrayElement n index) = NodeType.None) /\
    ((getTableSize n <= index)%nat -> getTableKey n index = "").
Proof.
  intros n index. unfold getArraySize, getTableSize. split.
  - intros Hge. unfold getArrayElement.
    destruct (Nat.ltb_spec index (List.length (_arrayValue n))) as [Hlt | _].
    + lia.
    + split; reflexivity.
  - intros Hge. unfold getTableKey.
    destruct (Nat.ltb_spec index (List.length (_tableKeys n))) as [Hlt | _].
    + lia.
    + reflexivity.
Qed.

Lemma out_of_range_access_default_witness :
  let n := makeArray [makeInteger 3; makeInteger 1] in
  getArrayElement n 2 = Node_ctor /\
  getType (getArrayElement n 2) = NodeType.None /\
  getTableKey (makeTable ["a"; "b"] [makeInteger 1; makeInteger 2]) 5 = "".
Proof.
  cbv zeta.
  destruct (out_of_range_access_default
              (makeArray [makeInteger 3; makeInteger 1]) 2) as [Harr _].
  destruct (out_of_range_access_default
              (makeTable ["a"; "b"] [makeInteger 1; makeInteger 2]) 5)
    as [_ Htbl].
  split; [apply Harr; vm_compute; lia |].
  split; [apply Harr; vm_compute; lia |].
  apply Htbl; vm_compute; lia.
Defined.

(** ** Date-times *)

Lemma static_cast_int32_in_range :
  forall z, -2147483648 <= z <= 2147483647 -> static_cast_int32 z = z.
Proof.
  intros z Hz. unfold static_cast_int32.
  rewrite Z.mod_small by lia. lia.
Qed.

(** C4.  The conversion of a native date-time yields a DateTime node whose
    record has [hasOffset = true] and [offsetMinutes] equal to the native
    minutes, sign included, when the native value carries an offset, and
    [hasOffset = false], [offsetMinutes = 0] when it carries none. *)
Theorem date_time_offset_converted :
  forall dt : toml.date_time,
    offset_representable dt ->
    exists v : DateTimeValue,
      getType (convertNode (toml.date_time_node dt)) = NodeType.DateTime /\
      getDateTime (convertNode (toml.date_time_node dt)) = holds v /\
      match toml.offset dt with
      | Some off => hasOffset v = true /\ offsetMinutes v = toml.minutes off
      | None => hasOffset v = false /\ offsetMinutes v = 0
      end.
Proof.
  intros dt Hrep. unfold offset_representable in Hrep.
  simpl. eexists. split; [reflexivity |]. split; [reflexivity |].
  destruct (toml.offset dt) as [off |]; simpl.
  - split; [reflexivity |]. now apply static_cast_int32_in_range.
  - split; reflexivity.
Qed.

Lemma date_time_offset_converted_witness :
  exists v : DateTimeValue,
    getDateTime (convertNode (toml.date_time_node offset_date_time)) = holds v /\
    hasOffset v = true /\ offsetMinutes v = -420.
Proof.
  destruct (date_time_offset_converted offset_date_time) as [v [_ [Hv Hoff]]].
  - unfold offset_representable. simpl. lia.
  - exists v. split; [exact Hv |]. exact Hoff.
Defined.

(** ** Order *)

(** C5.  The converted table answers [getTableKey i] with the key of the
    [i]-th pair that the engine's iteration visits and stores the conversion
    of that pair's value at the same position [i]; the converted array
    answers [getArrayElement i] with the conversion of the [i]-th element that
    the native array yields, and when the native array yields an element at
    every index this is the element at native index [i]. *)
Theorem conversion_preserves_order :
  forall (tbl : toml.table) (arr : toml.array) (i : nat),
    (forall k v,
        nth_error tbl i = Some (k, v) ->
        getTableKey (convertTable tbl) i = k /\
        nth_error (_tableValues (convertTable tbl)) i = Some (convertNode v)) /\
    getTableSize (convertTable tbl) = List.length tbl /\
    (forall elem,
        nth_error (present arr) i = Some elem ->
        getArrayElement (convertArray arr) i = convertNode elem) /\
    getArraySize (convertArray arr) = List.length (present arr) /\
    (forall elem,
        Forall (fun slot => slot <> None) arr ->
        toml.get arr i = Some elem ->
        getArrayElement (convertArray arr) i = convertNode elem).
Proof.
  intros tbl arr i.
  assert (Harr : forall elem,
             nth_error (present arr) i = Some elem ->
             getArrayElement (convertArray arr) i = convertNode elem).
  { intros elem H. rewrite getArrayElement_nth, convertArray_closed. simpl.
    apply nth_error_nth. now apply map_nth_error. }
  split; [| split; [| split; [| split]]].
  - intros k v H. rewrite getTableKey_nth.
    rewrite convertTable_closed. simpl.
    split.
    + apply nth_error_nth. apply (map_nth_error fst) in H. exact H.
    + apply (map_nth_error (fun e => convertNode (snd e))) in H. exact H.
  - rewrite convertTable_closed. unfold getTableSize. simpl.
    apply length_map.
  - exact Harr.
  - rewrite convertArray_closed. unfold getArraySize. simpl.
    apply length_map.
  - intros elem Hall Hget. apply Harr.
    assert (Hpresent : map Some (present arr) = arr).
    { clear -Hall. induction Hall as [| [e |] rest Hslot _ IH]; simpl.
      - reflexivity.
      - now rewrite IH.
      - now contradiction Hslot. }
    unfold toml.get in Hget. rewrite <- Hpresent in Hget.
    rewrite nth_error_map in Hget.
    destruct (nth_error (present arr) i) as [e |]; simpl in Hget.
    + exact Hget.
    + discriminate.
Qed.

Lemma conversion_preserves_order_witness :
  let tbl := [("a", toml.integer_node 1); ("b", toml.integer_node 2);
              ("c", toml.integer_node 3)] in
  let arr := [Some (toml.integer_node 3); Some (toml.integer_node 1);
              Some (toml.integer_node 2)] in
  getTableKey (convertTable tbl) 1 = "b" /\
  nth_error (_tableValues (convertTable tbl)) 1 = Some (makeInteger 2) /\
  getArrayElement (convertArray arr) 1 = makeInteger 1.
Proof.
  cbv zeta.
  destruct (conversion_preserves_order
              [("a", toml.integer_node 1); ("b", toml.integer_node 2);
               ("c", toml.integer_node 3)]
              [Some (toml.integer_node 3); Some (toml.integer_node 1);
               Some (toml.integer_node 2)] 1)
    as [Htbl [_ [Harr _]]].
  destruct (Htbl "b" (toml.integer_node 2)) as [Hk Hv];
    [reflexivity |].
  split; [exact Hk |]. split; [exact Hv |].
  apply (Harr (toml.integer_node 1)). reflexivity.
Defined.

(** ** Totality of the conversion *)

Lemma getType_convertNode :
  forall node, getType (convertNode node) = converted_tag node.
Proof.
  destruct node; try reflexivity.
  rewrite convertNode_table. apply getType_convertTable.
Qed.

(** C6.  [convertNode] is defined by recursion on the native tree, so it
    returns a node for every tree; the index loop of [convertArray] ends
    after [arr.size()] steps and yields the conversions of exactly the
    elements present, so an index without element adds nothing; a native node
    that answers none of the nine kind tests converts to the empty node with
    tag None. *)
Theorem conversion_total :
  forall (node : toml.node) (arr before after : toml.array),
    (exists n : Node,
        convertNode node = n /\ getType n = converted_tag node) /\
    _arrayValue (convertArray arr) =
      convertArray_loop arr (List.length arr) 0 [] /\
    _arrayValue (convertArray arr) = map convertNode (present arr) /\
    convertArray (before ++ None :: after) = convertArray (before ++ after) /\
    (toml.is_string node = false -> toml.is_integer node = false ->
     toml.is_floating_point node = false -> toml.is_boolean node = false ->
     toml.is_date node = false -> toml.is_time node = false ->
     toml.is_date_time node = false -> toml.is_array node = false ->
     toml.is_table node = false ->
     convertNode node = Node_ctor /\
     getType (convertNode node) = NodeType.None).
Proof.
  intros node arr before after.
  split; [| split; [| split; [| split]]].
  - exists (convertNode node). split; [reflexivity |].
    apply getType_convertNode.
  - rewrite convertArray_by_index. reflexivity.
  - rewrite convertArray_closed. reflexivity.
  - rewrite !convertArray_closed. f_equal. f_equal.
    induction before as [| [e |] rest IH]; simpl.
    + reflexivity.
    + now rewrite IH.
    + exact IH.
  - intros. rewrite (unmatched_kind node) by assumption.
    split; reflexivity.
Qed.

Lemma conversion_total_witness :
  convertNode toml.unknown_node = Node_ctor /\
  getType (convertNode toml.unknown_node) = NodeType.None /\
  convertArray [Some (toml.integer_node 1); None; Some (toml.integer_node 2)] =
    convertArray [Some (toml.integer_node 1); Some (toml.integer_node 2)].
Proof.
  destruct (conversion_total toml.unknown_node []
              [Some (toml.integer_node 1)] [Some (toml.integer_node 2)])
    as [_ [_ [_ [Hskip Hunknown]]]].
  destruct Hunknown as [Hnode Htag]; try reflexivity.
  split; [exact Hnode |]. split; [exact Htag |]. exact Hskip.
Defined.

(** ** Lookup by key *)

(** C7 does not hold on every node: [makeTable] accepts a key vector that is
    longer than the value vector, and on such a node the lookup of a stored
    key indexes the value vector past its end instead of returning a
    value. *)
Lemma getTableValue_key_without_value :
  In "a" (_tableKeys (makeTable ["a"] [])) /\
  getTableValue (makeTable ["a"] []) "a" = past_the_end /\
  ~ (forall (n : Node) (key : string),
        In key (_tableKeys n) ->
        exists v, getTableValue n key = done (Some v)).
Proof.
  split; [now left |]. split; [reflexivity |].
  intros H.
  destruct (H (makeTable ["a"] []) "a") as [v Hv]; [now left |].
  discriminate.
Qed.

(** C7, amended.  On every node whose value vector is at least as long as its
    key vector, [getTableValue key] is absent exactly when [key] is not among
    the node's keys, and for a stored key it returns the value at the index
    of the first occurrence of the key in insertion order. *)
Theorem getTableValue_first_occurrence :
  forall (n : Node) (key : string),
    (List.length (_tableKeys n) <= List.length (_tableValues n))%nat ->
    (getTableValue n key = done None <-> ~ In key (_tableKeys n)) /\
    (In key (_tableKeys n) ->
     exists i v,
       nth_error (_tableKeys n) i = Some key /\
       (forall j, (j < i)%nat -> nth_error (_tableKeys n) j <> Some key) /\
       nth_error (_tableValues n) i = Some v /\
       getTableValue n key = done (Some v)).
Proof.
  intros n key Hlen. split; [apply getTableValue_absent |].
  intros Hin. rewrite getTableValue_first.
  destruct (first_index (_tableKeys n) key) as [i |] eqn:Ei.
  - pose proof (first_index_in_range _ _ Ei) as Hi.
    destruct (first_index_some _ _ Ei) as [Hat Hbefore].
    unfold vector_at.
    destruct (nth_error (_tableValues n) i) as [v |] eqn:Ev.
    + exists i, v. repeat split; assumption.
    + apply nth_error_None in Ev. lia.
  - apply first_index_none in Ei. contradiction.
Qed.

Lemma getTableValue_first_occurrence_witness :
  let n := makeTable ["a"; "b"; "a"]
             [makeInteger 1; makeInteger 2; makeInteger 3] in
  (getTableValue n "c" = done None <-> ~ In "c" (_tableKeys n)) /\
  getTableValue n "a" = done (Some (makeInteger 1)).
Proof.
  cbv zeta.
  destruct (getTableValue_first_occurrence
              (makeTable ["a"; "b"; "a"]
                 [makeInteger 1; makeInteger 2; makeInteger 3]) "c")
    as [Habsent _]; [simpl; lia |].
  split; [exact Habsent | reflexivity].
Defined.

(** ** The entry point against the engine's contract *)

Lemma sample_engine_decides : engine_decides sample_well_formed sample_engine.
Proof.
  intros text. unfold sample_engine, sample_well_formed.
  destruct (String.eqb_spec text "") as [E1 | N1].
  { split; [intros _; eexists; reflexivity | intros H; exfalso; auto]. }
  destruct (String.eqb_spec text nested_document) as [E2 | N2].
  { split; [intros _; eexists; reflexivity | intros H; exfalso; auto]. }
  destruct (String.eqb_spec text offset_document) as [E3 | N3].
  { split; [intros _; eexists; reflexivity | intros H; exfalso; auto]. }
  split.
  - intros [H | [H | H]]; contradiction.
  - intros _. eexists. reflexivity.
Defined.

Lemma sample_engine_positions : engine_positions_one_based sample_engine.
Proof.
  intros text err. unfold sample_engine.
  destruct (String.eqb text ""); [discriminate |].
  destruct (String.eqb text nested_document); [discriminate |].
  destruct (String.eqb text offset_document); [discriminate |].
  intros H. injection H as <-. simpl. lia.
Defined.

(** C8.  Against an engine that returns a tree for well-formed text, raises
    for malformed text and reports 1-based positions: on every well-formed
    text [parse] returns [success = true] and a root tagged Table; on every
    malformed text it returns [success = false] and an error whose line and
    column are both at least 1. *)
Theorem parse_totality :
  forall (well_formed : string -> Prop)
         (toml_parse : string -> toml.parse_result),
    engine_decides well_formed toml_parse ->
    engine_positions_one_based toml_parse ->
    forall text : string,
      (well_formed text ->
       success (parse toml_parse text) = true /\
       getType (root (parse toml_parse text)) = NodeType.Table) /\
      (~ well_formed text ->
       success (parse toml_parse text) = false /\
       exists e : ParseError,
         error (parse toml_parse text) = Some e /\
         1 <= line e /\ 1 <= column e).
Proof.
  intros well_formed toml_parse Hdecides Hpos text.
  destruct (Hdecides text) as [Hwf Hmal].
  split.
  - intros H. destruct (Hwf H) as [tbl E].
    rewrite (@parse_returns _ _ _ E). simpl.
    split; [reflexivity | apply getType_convertTable].
  - intros H. destruct (Hmal H) as [err E].
    rewrite (@parse_throws _ _ _ E). simpl.
    split; [reflexivity |].
    eexists. split; [reflexivity |]. simpl.
    destruct (Hpos text err E) as [Hline Hcolumn]. lia.
Qed.

Lemma parse_totality_witness :
  (success (parse sample_engine nested_document) = true /\
   getType (root (parse sample_engine nested_document)) = NodeType.Table) /\
  (success (parse sample_engine "key = ") = false /\
   exists e : ParseError,
     error (parse sample_engine "key = ") = Some e /\
     1 <= line e /\ 1 <= column e).
Proof.
  split.
  - apply (parse_totality sample_engine_decides sample_engine_positions
             nested_document).
    right. left. reflexivity.
  - apply (parse_totality sample_engine_decides sample_engine_positions
             "key = ").
    intros [H | [H | H]]; discriminate.
Defined.

(** C9.  Against an engine that returns the empty root table for the empty
    text, [parse ""] returns [success = true] and a root tagged Table whose
    [getTableSize] is 0. *)
Theorem parse_empty_text :
  forall toml_parse : string -> toml.parse_result,
    engine_empty_document toml_parse ->
    success (parse toml_parse "") = true /\
    error (parse toml_parse "") = None /\
    getType (root (parse toml_parse "")) = NodeType.Table /\
    getTableSize (root (parse toml_parse "")) = 0%nat.
Proof.
  intros toml_parse Hempty. unfold engine_empty_document in Hempty.
  rewrite (@parse_returns _ _ _ Hempty). simpl.
  repeat split.
Qed.

Lemma parse_empty_text_witness :
  success (parse sample_engine "") = true /\
  error (parse sample_engine "") = None /\
  getType (root (parse sample_engine "")) = NodeType.Table /\
  getTableSize (root (parse sample_engine "")) = 0%nat.
Proof.
  apply (parse_empty_text (toml_parse := sample_engine)). reflexivity.
Defined.

(** ** Parallel vectors of parsed tables *)

Lemma paired_lookup_in_bounds :
  forall n key, paired n -> getTableValue n key <> past_the_end.
Proof.
  intros n key Hn. inversion Hn as [n' Hlen _ _]; subst.
  rewrite getTableValue_first.
  destruct (first_index (_tableKeys n) key) as [i |] eqn:Ei; [| discriminate].
  apply first_index_in_range in Ei.
  unfold vector_at.
  destruct (nth_error (_tableValues n) i) as [v |] eqn:Ev; [discriminate |].
  apply nth_error_None in Ev. lia.
Qed.

(** C10.  Whatever the engine, every Table node at or below the root of a
    successful parse has as many values as keys, so [getTableSize] is the
    number of stored values and [getTableValue] never indexes the value
    vector past its end. *)
Theorem parsed_tables_paired :
  forall (toml_parse : string -> toml.parse_result) (input : string)
         (n : Node),
    success (parse toml_parse input) = true ->
    reachable (root (parse toml_parse input)) n ->
    getType n = NodeType.Table ->
    List.length (_tableKeys n) = List.length (_tableValues n) /\
    getTableSize n = List.length (_tableValues n) /\
    forall key, getTableValue n key <> past_the_end.
Proof.
  intros toml_parse input n Hsuccess Hreach _.
  assert (Hroot : paired (root (parse toml_parse input))).
  { unfold parse. destruct (toml_parse input) as [tbl | err]; simpl.
    - apply paired_convertTable.
    - apply paired_Node_ctor. }
  pose proof (paired_reachable Hreach Hroot) as Hn.
  inversion Hn as [n' Hlen _ _]; subst.
  split; [exact Hlen |]. split; [exact Hlen |].
  intros key. now apply paired_lookup_in_bounds.
Qed.

Lemma parsed_tables_paired_witness :
  let inner :=
    convertNode
      (toml.table_node
         [("b", toml.array_node
                  [Some (toml.integer_node 1); Some (toml.integer_node 2);
                   Some (toml.integer_node 3)])]) in
  List.length (_tableKeys inner) = List.length (_tableValues inner) /\
  getTableSize inner = List.length (_tableValues inner) /\
  forall key, getTableValue inner key <> past_the_end.
Proof.
  cbv zeta.
  apply (parsed_tables_paired sample_engine nested_document).
  - reflexivity.
  - apply reachable_below with
      (c := convertNode
              (toml.table_node
                 [("b", toml.array_node
                          [Some (toml.integer_node 1);
                           Some (toml.integer_node 2);
                           Some (toml.integer_node 3)])])).
    + apply child_of_table. simpl. left. reflexivity.
    + apply reachable_here.
  - reflexivity.
Defined.

(** ** Further properties of the value model *)

Lemma first_index_unique :
  forall keys key i,
    nth_error keys i = Some key ->
    (forall j, (j < i)%nat -> nth_error keys j <> Some key) ->
    first_index keys key = Some i.
Proof.
  intros keys key i Hat Hbefore.
  destruct (first_index keys key) as [i' |] eqn:Ei.
  - destruct (first_index_some _ _ Ei) as [Hat' Hbefore'].
    destruct (Nat.lt_trichotomy i i') as [Hlt | [-> | Hgt]].
    + exfalso. now apply (Hbefore' i).
    + reflexivity.
    + exfalso. now apply (Hbefore i').
  - apply first_index_none in Ei. exfalso. apply Ei.
    now apply nth_error_In with i.
Qed.

Lemma first_index_app_in :
  forall keys more key,
    In key keys -> first_index (keys ++ more) key = first_index keys key.
Proof.
  induction keys as [| k rest IH]; intros more key Hin; simpl.
  - contradiction.
  - destruct (String.eqb_spec k key) as [E | NE]; [reflexivity |].
    destruct Hin as [E | Hin]; [contradiction |].
    now rewrite IH.
Qed.

Lemma first_index_app_notin :
  forall keys more key,
    ~ In key keys ->
    first_index (keys ++ more) key =
    option_map (Nat.add (List.length keys)) (first_index more key).
Proof.
  induction keys as [| k rest IH]; intros more key Hnin; simpl.
  - destruct (first_index more key); reflexivity.
  - destruct (String.eqb_spec k key) as [E | NE].
    + exfalso. apply Hnin. now left.
    + rewrite IH by (intros H; apply Hnin; now right).
      destruct (first_index more key); reflexivity.
Qed.

(** The scan over the keys of a converted table, entered behind the values
    [seen] that earlier iterations have stored. *)
Lemma lookup_loop_converted :
  forall (tbl : toml.table) (key : string) (seen : list Node),
    getTableValue_loop (map fst tbl)
      (seen ++ map (fun e => convertNode (snd e)) tbl) key (List.length seen) =
    done (option_map (fun entry => convertNode (snd entry))
            (native_lookup tbl key)).
Proof.
  intros tbl key. unfold native_lookup.
  induction tbl as [| [k v] rest IH]; intros seen; simpl.
  - reflexivity.
  - destruct (String.eqb k key).
    + unfold vector_at. rewrite nth_error_app2 by lia.
      rewrite Nat.sub_diag. reflexivity.
    + specialize (IH (seen ++ [convertNode v])).
      rewrite <- app_assoc, length_app in IH. simpl in IH.
      rewrite Nat.add_1_r in IH. exact IH.
Qed.

(** X1.  A lookup by key in a converted table returns the conversion of the
    value of the first native pair with that key, and is absent exactly when
    the native table has no pair with that key; it never reads past the end
    of the value vector. *)
Theorem lookup_converted_table :
  forall (tbl : toml.table) (key : string),
    getTableValue (convertTable tbl) key =
    done (option_map (fun entry => convertNode (snd entry))
            (native_lookup tbl key)).
Proof.
  intros tbl key. rewrite convertTable_closed.
  unfold getTableValue. simpl.
  exact (lookup_loop_converted tbl key []).
Qed.

(** X2.  On any node, a lookup reads the value vector past its end exactly
    when the key is stored and the index of its first occurrence is not below
    the number of stored values. *)
Theorem lookup_past_the_end_iff :
  forall (n : Node) (key : string),
    getTableValue n key = past_the_end <->
    exists i,
      nth_error (_tableKeys n) i = Some key /\
      (forall j, (j < i)%nat -> nth_error (_tableKeys n) j <> Some key) /\
      (List.length (_tableValues n) <= i)%nat.
Proof.
  intros n key. rewrite getTableValue_first. split.
  - destruct (first_index (_tableKeys n) key) as [i |] eqn:Ei; [| discriminate].
    destruct (first_index_some _ _ Ei) as [Hat Hbefore].
    unfold vector_at.
    destruct (nth_error (_tableValues n) i) as [v |] eqn:Ev; [discriminate |].
    intros _. exists i. split; [exact Hat |]. split; [exact Hbefore |].
    now apply nth_error_None.
  - intros [i [Hat [Hbefore Hlen]]].
    rewrite (@first_index_unique _ _ _ Hat Hbefore).
    unfold vector_at.
    apply nth_error_None in Hlen. now rewrite Hlen.
Qed.

(** X3.  On a node with at least as many values as keys, every key obtained
    by position can be looked up by name: the lookup returns a value, and
    when the keys are pairwise distinct it is the value stored at that same
    position. *)
Theorem positional_key_lookup :
  forall (n : Node) (i : nat),
    (i < getTableSize n)%nat ->
    (List.length (_tableKeys n) <= List.length (_tableValues n))%nat ->
    exists v,
      getTableValue n (getTableKey n i) = done (Some v) /\
      (NoDup (_tableKeys n) -> nth_error (_tableValues n) i = Some v).
Proof.
  intros n i Hi Hlen. unfold getTableSize in Hi.
  rewrite getTableKey_nth.
  set (key := nth i (_tableKeys n) "").
  assert (Hat : nth_error (_tableKeys n) i = Some key)
    by (now apply nth_error_nth').
  rewrite getTableValue_first.
  destruct (first_index (_tableKeys n) key) as [j |] eqn:Ej.
  - pose proof (first_index_in_range _ _ Ej) as Hj.
    destruct (first_index_some _ _ Ej) as [Hatj _].
    unfold vector_at.
    destruct (nth_error (_tableValues n) j) as [v |] eqn:Ev.
    + exists v. split; [reflexivity |].
      intros Hnodup.
      assert (i = j).
      { apply (proj1 (NoDup_nth_error (_tableKeys n)) Hnodup); [exact Hi |].
        congruence. }
      now subst j.
    + apply nth_error_None in Ev. lia.
  - apply first_index_none in Ej. exfalso. apply Ej.
    now apply nth_error_In with i.
Qed.

Lemma positional_key_lookup_witness :
  exists v,
    getTableValue (makeTable ["a"; "b"] [makeInteger 1; makeInteger 2])
      (getTableKey (makeTable ["a"; "b"] [makeInteger 1; makeInteger 2]) 1) =
    done (Some v).
Proof.
  destruct (@positional_key_lookup
              (makeTable ["a"; "b"] [makeInteger 1; makeInteger 2]) 1)
    as [v [Hv _]].
  - vm_compute. lia.
  - simpl. lia.
  - exists v. exact Hv.
Defined.

Lemma nth_over_indices :
  forall (A : Type) (d : A) (l : list A),
    map (fun i => nth i l d) (seq 0 (List.length l)) = l.
Proof.
  intros A d l. induction l as [| a rest IH]; simpl.
  - reflexivity.
  - f_equal. rewrite <- seq_shift, map_map. exact IH.
Qed.

(** X4.  Walking a node by position gives back what the factory received:
    the elements of [makeArray] in order through [getArrayElement] over
    [0 .. getArraySize-1], and the keys of [makeTable] in order through
    [getTableKey] over [0 .. getTableSize-1]. *)
Theorem positional_walk_recovers :
  forall (elements : list Node) (keys : list string) (values : list Node),
    map (getArrayElement (makeArray elements))
      (seq 0 (getArraySize (makeArray elements))) = elements /\
    map (getTableKey (makeTable keys values))
      (seq 0 (getTableSize (makeTable keys values))) = keys.
Proof.
  intros elements keys values. split.
  - rewrite (map_ext _ (fun i => nth i elements Node_ctor)).
    + apply nth_over_indices.
    + intros i. now rewrite getArrayElement_nth.
  - rewrite (map_ext _ (fun i => nth i keys "")).
    + apply nth_over_indices.
    + intros i. now rewrite getTableKey_nth.
Qed.

(** X5.  Appending one key and one value to parallel vectors of equal length,
    as each iteration of [convertTable] does, leaves the lookup of every key
    stored before unchanged; a key not stored before is found exactly when it
    is the appended key, with the appended value. *)
Theorem lookup_after_push_back :
  forall (keys : list string) (values : list Node)
         (k : string) (v : Node) (key : string),
    List.length keys = List.length values ->
    (In key keys ->
     getTableValue (makeTable (keys ++ [k]) (values ++ [v])) key =
     getTableValue (makeTable keys values) key) /\
    (~ In key keys ->
     getTableValue (makeTable (keys ++ [k]) (values ++ [v])) key =
     if String.eqb k key then done (Some v) else done None).
Proof.
  intros keys values k v key Hlen. rewrite !getTableValue_first. simpl. split.
  - intros Hin. rewrite first_index_app_in by exact Hin.
    destruct (first_index keys key) as [i |] eqn:Ei; [| reflexivity].
    apply first_index_in_range in Ei.
    unfold vector_at. rewrite nth_error_app1 by lia. reflexivity.
  - intros Hnin. rewrite first_index_app_notin by exact Hnin. simpl.
    destruct (String.eqb k key); simpl; [| reflexivity].
    unfold vector_at. rewrite Nat.add_0_r, Hlen.
    rewrite nth_error_app2 by lia. rewrite Nat.sub_diag. reflexivity.
Qed.

Lemma lookup_after_push_back_witness :
  getTableValue (makeTable (["a"] ++ ["b"]) ([makeInteger 1] ++ [makeInteger 2]))
    "a" = getTableValue (makeTable ["a"] [makeInteger 1]) "a" /\
  getTableValue (makeTable (["a"] ++ ["b"]) ([makeInteger 1] ++ [makeInteger 2]))
    "b" = done (Some (makeInteger 2)).
Proof.
  split.
  - apply (@lookup_after_push_back ["a"] [makeInteger 1] "b" (makeInteger 2) "a");
      [reflexivity | simpl; left; reflexivity].
  - apply (@lookup_after_push_back ["a"] [makeInteger 1] "b" (makeInteger 2) "b");
      [reflexivity |].
    simpl. intros [H | H]; [discriminate | exact H].
Defined.

(** ** Further properties of the converter *)

Lemma present_length :
  forall arr : toml.array, (List.length (present arr) <= List.length arr)%nat.
Proof.
  induction arr as [| [e |] rest IH]; simpl; lia.
Qed.

Lemma present_all :
  forall arr : toml.array,
    Forall (fun slot => slot <> None) arr -> map Some (present arr) = arr.
Proof.
  intros arr Hall. induction Hall as [| [e |] rest Hslot _ IH]; simpl.
  - reflexivity.
  - now rewrite IH.
  - now contradiction Hslot.
Qed.

(** X6.  A converted array never has more elements than the native array has
    indices, and has as many exactly when every native index yields an
    element. *)
Theorem converted_array_size :
  forall arr : toml.array,
    (getArraySize (convertArray arr) <= List.length arr)%nat /\
    (getArraySize (convertArray arr) = List.length arr <->
     Forall (fun slot => slot <> None) arr).
Proof.
  intros arr. rewrite convertArray_closed. unfold getArraySize. simpl.
  rewrite length_map. split; [apply present_length |].
  split.
  - induction arr as [| [e |] rest IH]; simpl; intros H.
    + constructor.
    + constructor; [discriminate | apply IH; lia].
    + pose proof (present_length rest). lia.
  - intros Hall. rewrite <- (present_all Hall) at 2.
    now rewrite length_map.
Qed.

Lemma factory_built_child :
  forall n c, factory_built n -> child n c -> factory_built c.
Proof.
  intros n c Hn Hc. inversion Hn as [n' _ Harr Htbl]; subst.
  destruct Hc as [Hin | Hin].
  - now apply (proj1 (Forall_forall _ _) Harr).
  - now apply (proj1 (Forall_forall _ _) Htbl).
Qed.

Lemma factory_built_reachable :
  forall n m, reachable n m -> factory_built n -> factory_built m.
Proof.
  intros n m Hreach. induction Hreach as [n | n c m Hc _ IH]; intros Hn.
  - exact Hn.
  - apply IH. now apply factory_built_child with n.
Qed.

Lemma in_present :
  forall (arr : toml.array) elem, In elem (present arr) -> In (Some elem) arr.
Proof.
  induction arr as [| [e |] rest IH]; simpl; intros elem H.
  - contradiction.
  - destruct H as [-> | H]; [now left | right; now apply IH].
  - right. now apply IH.
Qed.

Lemma factory_built_convertNode :
  forall node : toml.node, factory_built (convertNode node).
Proof.
  induction node as [s | i | f | b | d | t | dt | arr IH | tbl IH |]
    using toml.node_ind.
  - constructor; simpl; auto. right. now exists (call_makeString s).
  - constructor; simpl; auto. right. now exists (call_makeInteger i).
  - constructor; simpl; auto. right. now exists (call_makeFloat f).
  - constructor; simpl; auto. right. now exists (call_makeBoolean b).
  - constructor; simpl; auto. right. eexists (call_makeDate _). reflexivity.
  - constructor; simpl; auto. right. eexists (call_makeTime _). reflexivity.
  - constructor; simpl; auto. right. eexists (call_makeDateTime _).
    reflexivity.
  - rewrite convertNode_array, convertArray_closed.
    constructor; simpl; auto.
    + right. now exists (call_makeArray (map convertNode (present arr))).
    + apply Forall_forall. intros c Hc.
      apply in_map_iff in Hc. destruct Hc as [elem [<- Helem]].
      apply IH. now apply in_present.
  - rewrite convertNode_table, convertTable_closed.
    constructor; simpl; auto.
    + right.
      now exists (call_makeTable (map fst tbl)
                    (map (fun e => convertNode (snd e)) tbl)).
    + apply Forall_forall. intros c Hc.
      apply in_map_iff in Hc. destruct Hc as [[k v] [<- Hkv]].
      simpl. now apply (IH k v).
  - constructor; simpl; auto.
Qed.

(** X7.  Every node of a converted tree, the root and everything stored below
    it, is the default node or the result of exactly one factory call, so
    only the payload of its own tag is set: a node not tagged String has the
    empty string, one not tagged Integer the integer 0, one not tagged Boolean
    [false], one not tagged Array no elements and one not tagged Table no
    keys. *)
Theorem converted_tree_factory_built :
  forall (node : toml.node) (m : Node),
    reachable (convertNode node) m ->
    (m = Node_ctor \/ exists c, m = run_factory c) /\
    (getType m <> NodeType.String -> getString m = "") /\
    (getType m <> NodeType.Integer -> getInteger m = 0) /\
    (getType m <> NodeType.Boolean -> getBoolean m = false) /\
    (getType m <> NodeType.Array -> getArraySize m = 0%nat) /\
    (getType m <> NodeType.Table -> getTableSize m = 0%nat).
Proof.
  intros node m Hreach.
  pose proof (factory_built_reachable Hreach (factory_built_convertNode node))
    as Hm.
  inversion Hm as [m' Hshape _ _]; subst.
  split; [exact Hshape |].
  destruct Hshape as [-> | [c ->]].
  - repeat split; intros _; reflexivity.
  - destruct c; repeat split; intros H; try reflexivity;
      exfalso; apply H; reflexivity.
Qed.

Lemma converted_tree_factory_built_witness :
  getString (makeInteger 2) = "" /\ getArraySize (makeInteger 2) = 0%nat.
Proof.
  destruct (@converted_tree_factory_built
              (toml.array_node
                 [Some (toml.integer_node 1); Some (toml.integer_node 2)])
              (makeInteger 2)) as [_ [Hs [_ [_ [Ha _]]]]].
  - apply reachable_below with (c := makeInteger 2).
    + apply child_of_array. simpl. right. left. reflexivity.
    + apply reachable_here.
  - split; [apply Hs | apply Ha]; simpl; discriminate.
Defined.

Lemma fits_int32_cast :
  forall z, fits_int32 z = true -> static_cast_int32 z = z.
Proof.
  intros z H. unfold fits_int32 in H.
  apply andb_true_iff in H. destruct H as [Hlo Hhi].
  apply Z.leb_le in Hlo. apply Z.leb_le in Hhi.
  apply static_cast_int32_in_range. lia.
Qed.

Lemma date_fits_cast :
  forall d,
    date_fits d = true ->
    mk_DateValue (toml.year d) (static_cast_int32 (toml.month d))
      (static_cast_int32 (toml.day d)) =
    mk_DateValue (toml.year d) (toml.month d) (toml.day d).
Proof.
  intros d H. unfold date_fits in H.
  apply andb_true_iff in H. destruct H as [Hm Hd].
  now rewrite !fits_int32_cast.
Qed.

Lemma time_fits_cast :
  forall t,
    time_fits t = true ->
    mk_TimeValue (static_cast_int32 (toml.hour t))
      (static_cast_int32 (toml.minute t))
      (static_cast_int32 (toml.second t))
      (static_cast_int32 (toml.nanosecond t)) =
    mk_TimeValue (toml.hour t) (toml.minute t) (toml.second t)
      (toml.nanosecond t).
Proof.
  intros t H. unfold time_fits in H.
  apply andb_true_iff in H. destruct H as [H Hn].
  apply andb_true_iff in H. destruct H as [H Hs].
  apply andb_true_iff in H. destruct H as [Hh Hm].
  now rewrite !fits_int32_cast.
Qed.

(** X8.  When the native fields fit [int32_t], the conversion of a date, of a
    time and of a date-time stores every calendar and clock field with the
    value the engine gave it, nanoseconds included. *)
Theorem calendar_fields_preserved :
  forall (d : toml.date) (t : toml.time) (dt : toml.date_time),
    date_fits d = true ->
    time_fits t = true ->
    date_time_fits dt = true ->
    getDate (convertNode (toml.date_node d)) =
      holds (mk_DateValue (toml.year d) (toml.month d) (toml.day d)) /\
    getTime (convertNode (toml.time_node t)) =
      holds (mk_TimeValue (toml.hour t) (toml.minute t) (toml.second t)
               (toml.nanosecond t)) /\
    exists v,
      getDateTime (convertNode (toml.date_time_node dt)) = holds v /\
      date v = mk_DateValue (toml.year (toml.dt_date dt))
                 (toml.month (toml.dt_date dt)) (toml.day (toml.dt_date dt)) /\
      time v = mk_TimeValue (toml.hour (toml.dt_time dt))
                 (toml.minute (toml.dt_time dt))
                 (toml.second (toml.dt_time dt))
                 (toml.nanosecond (toml.dt_time dt)).
Proof.
  intros d t dt Hd Ht Hdt. unfold date_time_fits in Hdt.
  apply andb_true_iff in Hdt. destruct Hdt as [Hdt _].
  apply andb_true_iff in Hdt. destruct Hdt as [Hdd Hdt].
  split; [| split].
  - simpl. now rewrite date_fits_cast.
  - simpl. now rewrite time_fits_cast.
  - eexists. split; [reflexivity |]. simpl.
    split; [now apply date_fits_cast | now apply time_fits_cast].
Qed.

Lemma calendar_fields_preserved_witness :
  getDate (convertNode (toml.date_node (toml.mk_date 1979 5 27))) =
    holds (mk_DateValue 1979 5 27) /\
  getTime (convertNode (toml.time_node (toml.mk_time 7 32 0 999999999))) =
    holds (mk_TimeValue 7 32 0 999999999).
Proof.
  destruct (@calendar_fields_preserved (toml.mk_date 1979 5 27)
              (toml.mk_time 7 32 0 999999999) offset_date_time)
    as [Hd [Ht _]]; try reflexivity.
  split; [exact Hd | exact Ht].
Defined.

Lemma lossless_array :
  forall arr : toml.array,
    lossless (toml.array_node arr) = true ->
    map Some (present arr) = arr /\ forallb lossless (present arr) = true.
Proof.
  intros arr. simpl.
  induction arr as [| [e |] rest IH]; simpl; intros H.
  - split; reflexivity.
  - apply andb_true_iff in H. destruct H as [He Hrest].
    destruct (IH Hrest) as [Hmap Hall].
    split; [now rewrite Hmap | now rewrite He, Hall].
  - discriminate.
Qed.

Lemma converted_elements_injective :
  forall l1 l2 : list toml.node,
    (forall e, In e l1 ->
               forall t2, lossless e = true -> lossless t2 = true ->
                          convertNode e = convertNode t2 -> e = t2) ->
    forallb lossless l1 = true ->
    forallb lossless l2 = true ->
    map convertNode l1 = map convertNode l2 ->
    l1 = l2.
Proof.
  induction l1 as [| e1 rest1 IH]; intros [| e2 rest2] Hinj L1 L2 H;
    simpl in *; try discriminate.
  - reflexivity.
  - apply andb_true_iff in L1. destruct L1 as [Le1 Lrest1].
    apply andb_true_iff in L2. destruct L2 as [Le2 Lrest2].
    injection H as He Hrest.
    f_equal.
    + apply Hinj; auto.
    + apply IH; auto.
Qed.

Lemma converted_entries_injective :
  forall t1 t2 : toml.table,
    (forall k v, In (k, v) t1 ->
                 forall t2, lossless v = true -> lossless t2 = true ->
                            convertNode v = convertNode t2 -> v = t2) ->
    forallb (fun entry => lossless (snd entry)) t1 = true ->
    forallb (fun entry => lossless (snd entry)) t2 = true ->
    map fst t1 = map fst t2 ->
    map (fun e => convertNode (snd e)) t1 =
    map (fun e => convertNode (snd e)) t2 ->
    t1 = t2.
Proof.
  induction t1 as [| [k1 v1] rest1 IH]; intros [| [k2 v2] rest2] Hinj L1 L2 Hk Hv;
    simpl in *; try discriminate.
  - reflexivity.
  - apply andb_true_iff in L1. destruct L1 as [Lv1 Lrest1].
    apply andb_true_iff in L2. destruct L2 as [Lv2 Lrest2].
    injection Hk as Hk Hkrest. injection Hv as Hv Hvrest.
    f_equal.
    + f_equal; [exact Hk |]. apply (Hinj k1 v1); auto.
    + apply IH; auto. intros k v Hin. apply (Hinj k v). now right.
Qed.

(** Two converted nodes with different tags are different nodes. *)
Ltac different_tags H :=
  apply (f_equal getType) in H;
  rewrite !getType_convertNode in H;
  discriminate H.

(** X9.  The conversion loses nothing on native trees whose cast fields fit
    [int32_t] and whose arrays yield an element at every index: two such
    trees with the same converted node are the same tree.  In particular a
    date-time without offset and one with offset zero convert to different
    nodes. *)
Theorem conversion_injective :
  forall t1 t2 : toml.node,
    lossless t1 = true ->
    lossless t2 = true ->
    convertNode t1 = convertNode t2 ->
    t1 = t2.
Proof.
  intros t1.
  induction t1 as [s | i | f | b | d | t | dt | arr IH | tbl IH |]
    using toml.node_ind;
    intros t2 L1 L2 H; destruct t2;
    try (different_tags H).
  - apply (f_equal getString) in H. simpl in H. now subst.
  - apply (f_equal getInteger) in H. simpl in H. now subst.
  - apply (f_equal getFloat) in H. simpl in H. now subst.
  - apply (f_equal getBoolean) in H. simpl in H. now subst.
  - apply (f_equal getDate) in H. simpl in H, L1, L2.
    rewrite !date_fits_cast in H by assumption.
    injection H as Hy Hm Hd.
    destruct d, d0; simpl in *; now subst.
  - apply (f_equal getTime) in H. simpl in H, L1, L2.
    rewrite !time_fits_cast in H by assumption.
    injection H as Hh Hm Hs Hn.
    destruct t, t0; simpl in *; now subst.
  - apply (f_equal getDateTime) in H. simpl in H, L1, L2.
    unfold date_time_fits in L1, L2.
    apply andb_true_iff in L1. destruct L1 as [L1 Lo1].
    apply andb_true_iff in L1. destruct L1 as [Ld1 Lt1].
    apply andb_true_iff in L2. destruct L2 as [L2 Lo2].
    apply andb_true_iff in L2. destruct L2 as [Ld2 Lt2].
    rewrite !date_fits_cast, !time_fits_cast in H by assumption.
    injection H as Hy Hmo Hd Hh Hmi Hs Hn Hhas Hoff.
    destruct dt as [[y1 mo1 d1] [h1 mi1 s1 n1] o1],
             dt0 as [[y2 mo2 d2] [h2 mi2 s2 n2] o2]; simpl in *.
    subst. f_equal.
    destruct o1 as [[m1] |], o2 as [[m2] |]; simpl in *;
      try discriminate; [| reflexivity].
    rewrite !fits_int32_cast in Hoff by assumption. now subst.
  - pose proof (lossless_array _ L1) as [Hmap1 Hall1].
    pose proof (lossless_array _ L2) as [Hmap2 Hall2].
    apply (f_equal _arrayValue) in H.
    rewrite !convertNode_array, !convertArray_closed in H. simpl in H.
    f_equal. rewrite <- Hmap1, <- Hmap2. f_equal.
    apply converted_elements_injective; auto.
    intros e He. apply IH. now apply in_present.
  - simpl in L1, L2.
    pose proof (f_equal _tableKeys H) as Hk.
    pose proof (f_equal _tableValues H) as Hv.
    rewrite !convertNode_table, !convertTable_closed in Hk, Hv.
    simpl in Hk, Hv.
    f_equal. apply converted_entries_injective; auto.
  - reflexivity.
Qed.

Lemma conversion_injective_witness :
  toml.table_node nested_tree = toml.table_node nested_tree /\
  convertNode
    (toml.date_time_node
       (toml.mk_date_time (toml.mk_date 1979 5 27) (toml.mk_time 7 32 0 0)
          None)) <>
  convertNode
    (toml.date_time_node
       (toml.mk_date_time (toml.mk_date 1979 5 27) (toml.mk_time 7 32 0 0)
          (Some (toml.mk_time_offset 0)))).
Proof.
  split.
  - apply (@conversion_injective (toml.table_node nested_tree)
             (toml.table_node nested_tree)); reflexivity.
  - intros H.
    apply conversion_injective in H; [discriminate | reflexivity | reflexivity].
Defined.

(** X10.  Whatever the engine does, a lookup by key in the root of a parse
    result never reads past the end of the value vector: after a successful
    parse it returns the conversion of the value of the first top-level pair
    with that key, or absent when there is none; after a failed parse it is
    absent for every key. *)
Theorem parse_root_lookup :
  forall (toml_parse : string -> toml.parse_result) (input key : string),
    getTableValue (root (parse toml_parse input)) key =
    match toml_parse input with
    | toml.returns tbl =>
        done (option_map (fun entry => convertNode (snd entry))
                (native_lookup tbl key))
    | toml.throws _ => done None
    end.
Proof.
  intros toml_parse input key.
  destruct (toml_parse input) as [tbl | err] eqn:E.
  - rewrite (@parse_returns _ _ _ E). simpl.
    rewrite convertTable_closed. unfold getTableValue. simpl.
    exact (lookup_loop_converted tbl key []).
  - rewrite (@parse_throws _ _ _ E). reflexivity.
Qed.
